(** * Rooftop solar counting: the overlap evaluator, the per-frame
      association and the identity ledger of [rooftop_analysis.py]

    The development embeds three parts of the script:

    - [calculate_iou], the intersection-over-union of two boxes;
    - the body of the [for] loop of [callback] that decides [has_solar]
      for one rooftop detection and writes the three global containers
      [rooftop_status], [all_rooftops] and [rooftops_with_solar];
    - the cumulative statistics computed at the end of [callback].

    Numbers.  The boxes handed to [calculate_iou] are rows of a NumPy
    [xyxy] array.  Coordinates are idealised as exact rationals ([Q]):
    rounding, overflow and signed zeros are not modelled.  What is kept
    of floating-point arithmetic is the outcome of a division by zero,
    which NumPy does not raise but returns as [nan] or an infinity. *)

From Stdlib Require Import QArith Qminmax Lqa ZArith List Permutation Ascii.
From stdpp Require Import gmap pretty.

(** ** Scalars *)

(** The value of an arithmetic expression over NumPy scalars. *)
Inductive scalar : Type :=
| Num (q : Q)
| Inf (negative : bool)
| NaN.

(** [a < b] on rationals, as a boolean. *)
Definition Qltb (a b : Q) : bool :=
  match (a ?= b)%Q with Lt => true | _ => false end.

(** [num / den] on NumPy scalars: a zero divisor gives [nan] when the
    dividend is zero too and an infinity of the dividend's sign
    otherwise (with a [RuntimeWarning], not an exception). *)
Definition true_divide (num den : Q) : scalar :=
  if Qeq_bool den 0 then
    match (num ?= 0)%Q with
    | Eq => NaN
    | Gt => Inf false
    | Lt => Inf true
    end
  else Num (num / den).

(** [v > t] for a scalar [v] and a finite [t]: every comparison with
    [nan] is false. *)
Definition scalar_gt (v : scalar) (t : Q) : bool :=
  match v with
  | Num q => Qltb t q
  | Inf negative => negb negative
  | NaN => false
  end.

(** ** Boxes and detections *)

(** A box is [[x1, y1, x2, y2]]: [(x1, y1)] the top-left corner and
    [(x2, y2)] the bottom-right one. *)
Record Box : Type := mkBox { x1 : Q; y1 : Q; x2 : Q; y2 : Q }.

(** One row of an [sv.Detections] after the tracker update: the
    library keeps [xyxy] and [tracker_id] at the same length, so the
    source's [enumerate(tracker_id)] with [xyxy[idx]] walks these rows. *)
Record Detection : Type := mkDetection { xyxy : Box; tracker_id : Z }.

(** ** Traces *)

(** What a run does besides computing values: the calls of
    [calculate_iou] and the divisions it evaluates. *)
Inductive event : Type :=
| CallIou (box1 box2 : Box)
| Divide (num den : Q).

Module Trace.

Definition M (A : Type) : Type := (A * list event)%type.

Definition ret {A} (a : A) : M A := (a, []).

Definition bind {A B} (m : M A) (f : A -> M B) : M B :=
  let (a, t1) := m in
  let (b, t2) := f a in
  (b, t1 ++ t2).

Definition tell (e : event) : M unit := (tt, [e]).

Definition value {A} (m : M A) : A := fst m.
Definition trace {A} (m : M A) : list event := snd m.

End Trace.
Import Trace.

Notation "'let*' x ':=' m 'in' k" := (bind m (fun x => k))
  (at level 10, x name, m at level 100, k at level 200).

(** ** [calculate_iou] *)

Definition calculate_iou (box1 box2 : Box) : M scalar :=
  let* _ := tell (CallIou box1 box2) in
  let x_left := Qmax (x1 box1) (x1 box2) in
  let y_top := Qmax (y1 box1) (y1 box2) in
  let x_right := Qmin (x2 box1) (x2 box2) in
  let y_bottom := Qmin (y2 box1) (y2 box2) in
  if Qltb x_right x_left || Qltb y_bottom y_top then
    ret (Num 0)
  else
    let intersection_area := ((x_right - x_left) * (y_bottom - y_top))%Q in
    let box1_area := ((x2 box1 - x1 box1) * (y2 box1 - y1 box1))%Q in
    let box2_area := ((x2 box2 - x1 box2) * (y2 box2 - y1 box2))%Q in
    let union_area := (box1_area + box2_area - intersection_area)%Q in
    let* _ := tell (Divide intersection_area union_area) in
    ret (true_divide intersection_area union_area).

(** ** The association of one rooftop with the frame's solar panels *)

(** The bar of [if iou > 0.05], as the exact rational 1/20; the
    source compares a rounded quotient with the double nearest to 0.05. *)
Definition threshold : Q := 5 # 100.

(** The inner [for] loop over the solar detections, with its [break]. *)
Fixpoint scan_solar (rooftop_box : Box) (solar_detections : list Detection)
  : M bool :=
  match solar_detections with
  | [] => ret false
  | s :: rest =>
      let solar_box := xyxy s in
      let* iou := calculate_iou rooftop_box solar_box in
      if scalar_gt iou threshold then ret true
      else scan_solar rooftop_box rest
  end.

(** [has_solar] of one rooftop: [False] unless the guarded loop sets it. *)
Definition has_solar_of (rooftop_box : Box) (solar_detections : list Detection)
  : M bool :=
  if (0 <? length solar_detections)%nat
  then scan_solar rooftop_box solar_detections
  else ret false.

(** The test one solar detection is put to: [iou > 0.05]. *)
Definition overlaps (rooftop_box : Box) (s : Detection) : bool :=
  scalar_gt (value (calculate_iou rooftop_box (xyxy s))) threshold.

(** ** The global containers *)

Record Ledger : Type := mkLedger {
  rooftop_status : gmap Z bool;
  all_rooftops : gset Z;
  rooftops_with_solar : gset Z
}.

(** The state at module load: an empty [defaultdict] and two empty sets. *)
Definition empty_ledger : Ledger := mkLedger ∅ ∅ ∅.

(** [d[k]] on a [defaultdict(bool)]: a missing key reads as [False] and
    is stored. *)
Definition status_getitem (k : Z) (d : gmap Z bool) : bool * gmap Z bool :=
  match d !! k with
  | Some b => (b, d)
  | None => (false, <[k := false]> d)
  end.

(** The status a label would show for [k]. *)
Definition current_status (k : Z) (g : Ledger) : bool :=
  fst (status_getitem k (rooftop_status g)).

(** The three writes of one loop iteration: [all_rooftops.add],
    [rooftop_status[rooftop_id] = has_solar] and, under [if has_solar],
    [rooftops_with_solar.add]. *)
Definition record_observation (rooftop_id : Z) (has_solar : bool) (g : Ledger)
  : Ledger :=
  mkLedger
    (<[rooftop_id := has_solar]> (rooftop_status g))
    ({[rooftop_id]} ∪ all_rooftops g)
    (if has_solar then {[rooftop_id]} ∪ rooftops_with_solar g
     else rooftops_with_solar g).

(** One iteration of the outer [for] loop, in the order of the source. *)
Definition rooftop_iteration (solar_detections : list Detection)
    (g : Ledger) (r : Detection) : M Ledger :=
  let rooftop_id := tracker_id r in
  let g1 := mkLedger (rooftop_status g) ({[rooftop_id]} ∪ all_rooftops g)
                     (rooftops_with_solar g) in
  let rooftop_box := xyxy r in
  let* has_solar := has_solar_of rooftop_box solar_detections in
  let g2 := mkLedger (<[rooftop_id := has_solar]> (rooftop_status g1))
                     (all_rooftops g1) (rooftops_with_solar g1) in
  if has_solar
  then ret (mkLedger (rooftop_status g2) (all_rooftops g2)
                     ({[rooftop_id]} ∪ rooftops_with_solar g2))
  else ret g2.

(** The outer [for] loop over the rooftop detections of a frame. *)
Fixpoint update_tracking (solar_detections rooftop_detections : list Detection)
    (g : Ledger) : M Ledger :=
  match rooftop_detections with
  | [] => ret g
  | r :: rest =>
      let* g' := rooftop_iteration solar_detections g r in
      update_tracking solar_detections rest g'
  end.

(** The list comprehension of the labels: [(tracker_id, shows "(Solar)")]
    for every rooftop detection, reading the [defaultdict]. *)
Fixpoint rooftop_labels (rooftop_detections : list Detection)
    (d : gmap Z bool) : list (Z * bool) * gmap Z bool :=
  match rooftop_detections with
  | [] => ([], d)
  | r :: rest =>
      let (b, d1) := status_getitem (tracker_id r) d in
      let (labels, d2) := rooftop_labels rest d1 in
      ((tracker_id r, b) :: labels, d2)
  end.

(** ** Statistics *)

Record Stats : Type := mkStats {
  total_rooftops : Z;
  total_with_solar : Z;
  total_without_solar : Z
}.

Definition totals (g : Ledger) : Stats :=
  let total_rooftops := Z.of_nat (size (all_rooftops g)) in
  let total_with_solar := Z.of_nat (size (rooftops_with_solar g)) in
  let total_without_solar := (total_rooftops - total_with_solar)%Z in
  mkStats total_rooftops total_with_solar total_without_solar.

(** ** [callback] and the video loop *)

(** What the two trackers hand to [callback] for one frame. *)
Record Frame : Type := mkFrame {
  rooftop_detections : list Detection;
  solar_detections : list Detection
}.

(** What the annotated frame shows of the core: labels and statistics. *)
Record Annotation : Type := mkAnnotation {
  labels : list (Z * bool);
  stats : Stats
}.

Definition callback (frame : Frame) (g : Ledger) : M (Annotation * Ledger) :=
  let* g1 := update_tracking (solar_detections frame)
                             (rooftop_detections frame) g in
  let (rooftop_labels, d) :=
    rooftop_labels (rooftop_detections frame) (rooftop_status g1) in
  let g2 := mkLedger d (all_rooftops g1) (rooftops_with_solar g1) in
  ret (mkAnnotation rooftop_labels (totals g2), g2).

(** [sv.process_video]: [callback] on every frame, in order. *)
Fixpoint process_video (frames : list Frame) (g : Ledger)
  : M (list Annotation * Ledger) :=
  match frames with
  | [] => ret ([], g)
  | frame :: rest =>
      let* r := callback frame g in
      let* rs := process_video rest (snd r) in
      ret (fst r :: fst rs, snd rs)
  end.

(** What one rooftop detection of a frame makes the loop write. *)
Definition observation (solar_detections : list Detection) (r : Detection)
  : Z * bool :=
  (tracker_id r, value (has_solar_of (xyxy r) solar_detections)).

Definition frame_observations (frame : Frame) : list (Z * bool) :=
  map (observation (solar_detections frame)) (rooftop_detections frame).

(** A sequence of observations applied to a ledger, oldest first. *)
Definition record_all (obs : list (Z * bool)) (g : Ledger) : Ledger :=
  fold_left (fun g o => record_observation (fst o) (snd o) g) obs g.

(** ** Geometry of boxes *)

Local Open Scope Q_scope.

(** The closed rectangle a box denotes. *)
Definition in_box (b : Box) (x y : Q) : Prop :=
  (x1 b <= x /\ x <= x2 b) /\ (y1 b <= y /\ y <= y2 b).

(** Two boxes with no point in common. *)
Definition disjoint_boxes (b1 b2 : Box) : Prop :=
  forall x y, ~ (in_box b1 x y /\ in_box b2 x y).

(** The invariant of a bounding box, and its failure. *)
Definition well_formed (b : Box) : Prop := x1 b <= x2 b /\ y1 b <= y2 b.
Definition malformed (b : Box) : Prop := x2 b < x1 b \/ y2 b < y1 b.

Definition area (b : Box) : Q := (x2 b - x1 b) * (y2 b - y1 b).

(** The test of [if x_right < x_left or y_bottom < y_top]. *)
Definition no_intersection (box1 box2 : Box) : bool :=
  Qltb (Qmin (x2 box1) (x2 box2)) (Qmax (x1 box1) (x1 box2))
  || Qltb (Qmin (y2 box1) (y2 box2)) (Qmax (y1 box1) (y1 box2)).

Definition intersection_area_of (box1 box2 : Box) : Q :=
  (Qmin (x2 box1) (x2 box2) - Qmax (x1 box1) (x1 box2))
  * (Qmin (y2 box1) (y2 box2) - Qmax (y1 box1) (y1 box2)).

Definition union_area_of (box1 box2 : Box) : Q :=
  area box1 + area box2 - intersection_area_of box1 box2.

(** A scalar that is a number of the closed unit interval. *)
Definition in_unit_interval (v : scalar) : Prop :=
  match v with
  | Num q => 0 <= q /\ q <= 1
  | _ => False
  end.

(** ** Reading results and traces *)

(** Two scalars that are the same value: rationals are compared up to
    their representation as fractions. *)
Definition scalar_eq (v w : scalar) : Prop :=
  match v, w with
  | Num p, Num q => p == q
  | Inf a, Inf b => a = b
  | NaN, NaN => True
  | _, _ => False
  end.

(** Two boxes with a point in common. *)
Definition boxes_meet (b1 b2 : Box) : Prop :=
  exists x y, in_box b1 x y /\ in_box b2 x y.

Definition is_call (e : event) : bool :=
  match e with CallIou _ _ => true | Divide _ _ => false end.

Definition is_divide (e : event) : bool :=
  match e with Divide _ _ => true | CallIou _ _ => false end.

(** The number of calls of [calculate_iou], and of divisions, in a trace. *)
Definition calls (t : list event) : nat := length (List.filter is_call t).
Definition divisions (t : list event) : nat := length (List.filter is_divide t).

(** The status entry of [i] after a sequence of observations, [acc]
    being the entry before: the last observation of [i] wins. *)
Definition observe_status (i : Z) (acc : option bool) (obs : list (Z * bool))
  : option bool :=
  fold_left (fun acc o => if decide (fst o = i) then Some (snd o) else acc)
    obs acc.

(** The text of a label: [f"#{tracker_id} Rooftop (Solar)"] or
    [f"#{tracker_id} Rooftop (No Solar)"], the identity in decimal. *)
Definition label_text (l : Z * bool) : string :=
  ("#" +:+ pretty (fst l) +:+ " Rooftop "
   +:+ (if snd l then "(Solar)" else "(No Solar)"))%string.

(** A string without a space. *)
Fixpoint no_space (s : string) : Prop :=
  match s with
  | EmptyString => True
  | String c rest => c <> " "%char /\ no_space rest
  end.

(** ** Detections of the scenarios *)

Definition roof (id : Z) : Detection := mkDetection (mkBox 0 0 10 10) id.
Definition panel_on_roof : Detection := mkDetection (mkBox 5 5 15 15) 1.
Definition panel_far_away : Detection := mkDetection (mkBox 100 100 110 110) 2.

(** * Properties *)

(** ** Rational comparisons *)

Lemma Qltb_lt (a b : Q) : Qltb a b = true <-> a < b.
Proof.
  unfold Qltb. rewrite Qlt_alt.
  destruct (a ?= b); split; intro H; congruence.
Qed.

Lemma Qltb_ge (a b : Q) : Qltb a b = false <-> b <= a.
Proof.
  rewrite <- not_true_iff_false, Qltb_lt. split.
  - apply Qnot_lt_le.
  - apply Qle_not_lt.
Qed.

(** Two closed intervals meet exactly when the larger left end is at
    most the smaller right end. *)
Lemma intervals_meet (a1 a2 b1 b2 : Q) :
  Qmax a1 b1 <= Qmin a2 b2 <->
  exists x, (a1 <= x /\ x <= a2) /\ (b1 <= x /\ x <= b2).
Proof.
  split.
  - intros H. exists (Qmax a1 b1).
    pose proof (Q.le_max_l a1 b1). pose proof (Q.le_max_r a1 b1).
    pose proof (Q.le_min_l a2 b2). pose proof (Q.le_min_r a2 b2).
    repeat split; try assumption; eapply Qle_trans; eassumption.
  - intros [x [[Ha1 Ha2] [Hb1 Hb2]]].
    apply Qle_trans with x.
    + apply Q.max_lub; assumption.
    + apply Q.min_glb; assumption.
Qed.

Lemma no_intersection_true (b1 b2 : Box) :
  no_intersection b1 b2 = true <->
  Qmin (x2 b1) (x2 b2) < Qmax (x1 b1) (x1 b2)
  \/ Qmin (y2 b1) (y2 b2) < Qmax (y1 b1) (y1 b2).
Proof.
  unfold no_intersection. rewrite orb_true_iff, !Qltb_lt. tauto.
Qed.

Lemma no_intersection_false (b1 b2 : Box) :
  no_intersection b1 b2 = false <->
  Qmax (x1 b1) (x1 b2) <= Qmin (x2 b1) (x2 b2)
  /\ Qmax (y1 b1) (y1 b2) <= Qmin (y2 b1) (y2 b2).
Proof.
  unfold no_intersection. rewrite orb_false_iff, !Qltb_ge. tauto.
Qed.

(** The early return is taken exactly by the pairs of boxes that share
    no point. *)
Lemma no_intersection_disjoint (b1 b2 : Box) :
  no_intersection b1 b2 = true <-> disjoint_boxes b1 b2.
Proof.
  split.
  - intros H x y [[Hx1 Hy1] [Hx2 Hy2]].
    apply no_intersection_true in H. destruct H as [H | H].
    + apply (Qlt_not_le _ _ H). apply intervals_meet. exists x. tauto.
    + apply (Qlt_not_le _ _ H). apply intervals_meet. exists y. tauto.
  - intros H. destruct (no_intersection b1 b2) eqn:E; [reflexivity | exfalso].
    apply no_intersection_false in E. destruct E as [Ex Ey].
    apply intervals_meet in Ex, Ey.
    destruct Ex as [x Hx], Ey as [y Hy].
    apply (H x y). unfold in_box. tauto.
Qed.

(** ** The two paths of [calculate_iou] *)

(** The edges of the intersection rectangle against the edges of the
    two boxes. *)
Ltac edge_bounds b1 b2 :=
  pose proof (Q.le_max_l (x1 b1) (x1 b2));
  pose proof (Q.le_max_r (x1 b1) (x1 b2));
  pose proof (Q.le_min_l (x2 b1) (x2 b2));
  pose proof (Q.le_min_r (x2 b1) (x2 b2));
  pose proof (Q.le_max_l (y1 b1) (y1 b2));
  pose proof (Q.le_max_r (y1 b1) (y1 b2));
  pose proof (Q.le_min_l (y2 b1) (y2 b2));
  pose proof (Q.le_min_r (y2 b1) (y2 b2)).

Lemma calculate_iou_early (b1 b2 : Box) :
  no_intersection b1 b2 = true ->
  calculate_iou b1 b2 = (Num 0, [CallIou b1 b2]).
Proof.
  intros H. unfold calculate_iou, no_intersection in *. simpl.
  rewrite H. reflexivity.
Qed.

Lemma calculate_iou_divides (b1 b2 : Box) :
  no_intersection b1 b2 = false ->
  calculate_iou b1 b2 =
    (true_divide (intersection_area_of b1 b2) (union_area_of b1 b2),
     [CallIou b1 b2;
      Divide (intersection_area_of b1 b2) (union_area_of b1 b2)]).
Proof.
  intros H. unfold calculate_iou, no_intersection in *. simpl.
  rewrite H. reflexivity.
Qed.

(** The lemmas on the quotient ([division_path_areas],
    [division_path_value], [calculate_iou_value] and those after it, up
    to the claims) are about the exact arithmetic of this model.  The
    source rounds: on float32 rows an area can overflow or underflow, so
    that they bound what the quotient is before rounding and say nothing
    of inputs beyond the range where the areas are exact. *)

(** On the division path both boxes are well formed and the
    intersection rectangle lies inside each of them. *)
Lemma division_path_areas (b1 b2 : Box) :
  no_intersection b1 b2 = false ->
  0 <= intersection_area_of b1 b2
  /\ intersection_area_of b1 b2 <= area b1
  /\ intersection_area_of b1 b2 <= area b2.
Proof.
  intros H. apply no_intersection_false in H. destruct H as [Hx Hy].
  unfold intersection_area_of, area.
  edge_bounds b1 b2.
  generalize dependent (Qmax (x1 b1) (x1 b2)). intros l.
  generalize dependent (Qmin (x2 b1) (x2 b2)). intros r.
  generalize dependent (Qmax (y1 b1) (y1 b2)). intros t.
  generalize dependent (Qmin (y2 b1) (y2 b2)). intros b.
  intros. repeat split; nra.
Qed.

Lemma division_path_well_formed (b1 b2 : Box) :
  no_intersection b1 b2 = false -> well_formed b1 /\ well_formed b2.
Proof.
  intros H. apply no_intersection_false in H. destruct H as [Hx Hy].
  edge_bounds b1 b2.
  unfold well_formed. repeat split; eapply Qle_trans; try eassumption;
    eapply Qle_trans; eassumption.
Qed.

Lemma malformed_no_intersection (b1 b2 : Box) :
  malformed b1 \/ malformed b2 -> no_intersection b1 b2 = true.
Proof.
  intros H. destruct (no_intersection b1 b2) eqn:E; [reflexivity | exfalso].
  apply division_path_well_formed in E. destruct E as [[? ?] [? ?]].
  unfold malformed in H.
  destruct H as [[H | H] | [H | H]]; eapply Qlt_not_le; eassumption.
Qed.

Lemma true_divide_zero_divisor (num den : Q) :
  den == 0 ->
  true_divide num den =
    match num ?= 0 with Eq => NaN | Gt => Inf false | Lt => Inf true end.
Proof.
  intros H. unfold true_divide.
  apply Qeq_bool_iff in H. rewrite H. reflexivity.
Qed.

Lemma true_divide_number (num den : Q) :
  ~ den == 0 -> true_divide num den = Num (num / den).
Proof.
  intros H. unfold true_divide.
  destruct (Qeq_bool den 0) eqn:E; [| reflexivity].
  apply Qeq_bool_iff in E. contradiction.
Qed.

(** The quotient of the division path: a number of [[0, 1]] when the
    union area is not zero, [nan] when it is. *)
Lemma division_path_value (b1 b2 : Box) :
  no_intersection b1 b2 = false ->
  (union_area_of b1 b2 == 0 /\
   true_divide (intersection_area_of b1 b2) (union_area_of b1 b2) = NaN)
  \/ (0 < union_area_of b1 b2 /\
      in_unit_interval
        (true_divide (intersection_area_of b1 b2) (union_area_of b1 b2))).
Proof.
  intros H. destruct (division_path_areas b1 b2 H) as (Hi & H1 & H2).
  unfold union_area_of.
  set (i := intersection_area_of b1 b2) in *.
  set (u := area b1 + area b2 - i).
  assert (Hu : i <= u) by (unfold u; lra).
  destruct (Qeq_dec u 0) as [E | E].
  - left. split; [exact E |].
    rewrite true_divide_zero_divisor by exact E.
    assert (Ei : i == 0) by lra.
    apply Qeq_alt in Ei. rewrite Ei. reflexivity.
  - right. assert (Hpos : 0 < u) by lra. split; [exact Hpos |].
    rewrite true_divide_number by exact E. simpl. split.
    + apply Qle_shift_div_l; [exact Hpos | lra].
    + apply Qle_shift_div_r; [exact Hpos | lra].
Qed.

(** Every call returns a number of [[0, 1]] or [nan]; [nan] comes from
    the division, with a zero union area. *)
Lemma calculate_iou_value (b1 b2 : Box) :
  in_unit_interval (value (calculate_iou b1 b2))
  \/ (value (calculate_iou b1 b2) = NaN
      /\ no_intersection b1 b2 = false
      /\ union_area_of b1 b2 == 0).
Proof.
  destruct (no_intersection b1 b2) eqn:E.
  - left. rewrite calculate_iou_early by exact E. simpl. lra.
  - rewrite calculate_iou_divides by exact E. unfold value. simpl.
    destruct (division_path_value b1 b2 E) as [[Hu Hn] | [Hu Hn]].
    + right. auto.
    + left. exact Hn.
Qed.

(** No call returns an infinity. *)
Lemma calculate_iou_not_inf (b1 b2 : Box) (negative : bool) :
  value (calculate_iou b1 b2) <> Inf negative.
Proof.
  destruct (calculate_iou_value b1 b2) as [H | [H _]].
  - intros E. rewrite E in H. exact H.
  - rewrite H. discriminate.
Qed.

(** With a non-zero union area the result is a number of [[0, 1]]. *)
Lemma calculate_iou_unit_interval (b1 b2 : Box) :
  ~ union_area_of b1 b2 == 0 ->
  in_unit_interval (value (calculate_iou b1 b2)).
Proof.
  intros Hu. destruct (calculate_iou_value b1 b2) as [H | (_ & _ & H)].
  - exact H.
  - contradiction.
Qed.

(** A zero-area intersection that reaches the division gives a number
    equal to zero as long as the union area is not zero: touching
    boxes, or one degenerate box against a box with positive area. *)
Lemma calculate_iou_zero_intersection (b1 b2 : Box) :
  no_intersection b1 b2 = false ->
  intersection_area_of b1 b2 == 0 ->
  ~ union_area_of b1 b2 == 0 ->
  exists q, calculate_iou b1 b2 =
              (Num q, [CallIou b1 b2;
                       Divide (intersection_area_of b1 b2) (union_area_of b1 b2)])
            /\ q == 0.
Proof.
  intros H Hi Hu. rewrite calculate_iou_divides by exact H.
  rewrite true_divide_number by exact Hu.
  eexists. split; [reflexivity |].
  unfold Qdiv. rewrite Hi. ring.
Qed.

(** A degenerate box against any box: zero, unless the union area is
    zero as well. *)
Lemma calculate_iou_degenerate (b1 b2 : Box) :
  area b1 == 0 \/ area b2 == 0 ->
  ~ union_area_of b1 b2 == 0 ->
  exists q, value (calculate_iou b1 b2) = Num q /\ q == 0.
Proof.
  intros Hz Hu. destruct (no_intersection b1 b2) eqn:E.
  - rewrite calculate_iou_early by exact E. exists 0. split; reflexivity.
  - destruct (division_path_areas b1 b2 E) as (Hi & H1 & H2).
    assert (Hi0 : intersection_area_of b1 b2 == 0) by (destruct Hz; lra).
    destruct (calculate_iou_zero_intersection b1 b2 E Hi0 Hu) as (q & Hq & Hq0).
    exists q. rewrite Hq. split; [reflexivity | exact Hq0].
Qed.

(** ** Claims on the overlap evaluator *)




(** C5, as stated, fails: a box with [x1 > x2] is not rejected; the
    call returns the number [0]. *)
Lemma malformed_box_not_rejected :
  malformed (mkBox 10 0 0 10)
  /\ calculate_iou (mkBox 10 0 0 10) (mkBox 0 0 10 10)
     = (Num 0, [CallIou (mkBox 10 0 0 10) (mkBox 0 0 10 10)]).
Proof.
  split.
  - left. reflexivity.
  - reflexivity.
Qed.

(** C5, amended.  For every pair of boxes one of which has inconsistent
    corner ordering, [calculate_iou] does not reject: it returns [0] from
    the early return, so that no area is computed and no division is
    evaluated, and the pair does not pass the threshold test. *)
Theorem calculate_iou_malformed (b1 b2 : Box) :
  malformed b1 \/ malformed b2 ->
  calculate_iou b1 b2 = (Num 0, [CallIou b1 b2])
  /\ scalar_gt (value (calculate_iou b1 b2)) threshold = false.
Proof.
  intros H. apply malformed_no_intersection in H.
  rewrite calculate_iou_early by exact H. split; reflexivity.
Qed.

Lemma calculate_iou_malformed_witness :
  (malformed (mkBox 0 8 10 2) \/ malformed (mkBox 0 0 10 10))
  /\ calculate_iou (mkBox 0 8 10 2) (mkBox 0 0 10 10)
     = (Num 0, [CallIou (mkBox 0 8 10 2) (mkBox 0 0 10 10)])
  /\ scalar_gt (value (calculate_iou (mkBox 0 8 10 2) (mkBox 0 0 10 10)))
       threshold = false.
Proof.
  assert (H : malformed (mkBox 0 8 10 2) \/ malformed (mkBox 0 0 10 10)).
  { left. right. reflexivity. }
  split; [exact H |].
  exact (calculate_iou_malformed _ _ H).
Defined.

(** C1.  Two copies of the degenerate box [[3, 4, 3, 4]] have a zero
    union area; they pass the test of the early return, the division
    [0 / 0] is evaluated and the call returns [nan], not [0]. *)
Theorem calculate_iou_zero_union_nan :
  area (mkBox 3 4 3 4) == 0
  /\ union_area_of (mkBox 3 4 3 4) (mkBox 3 4 3 4) == 0
  /\ calculate_iou (mkBox 3 4 3 4) (mkBox 3 4 3 4)
     = (NaN, [CallIou (mkBox 3 4 3 4) (mkBox 3 4 3 4); Divide 0 0]).
Proof.
  repeat split.
Qed.

(** C9.  The well-formed boxes [[0, 0, 0, 5]] and [[0, 0, 3, 0]] (two
    segments that meet at the origin) give [nan], which is not a value
    of [[0, 1]]. *)
Theorem calculate_iou_segments_nan :
  well_formed (mkBox 0 0 0 5) /\ well_formed (mkBox 0 0 3 0)
  /\ value (calculate_iou (mkBox 0 0 0 5) (mkBox 0 0 3 0)) = NaN
  /\ ~ in_unit_interval (value (calculate_iou (mkBox 0 0 0 5) (mkBox 0 0 3 0))).
Proof.
  split; [| split; [| split]].
  - split; discriminate.
  - split; discriminate.
  - reflexivity.
  - intros H. exact H.
Qed.

Local Close Scope Q_scope.

(** ** Values and traces of composed computations *)

Lemma value_bind {A B} (m : M A) (f : A -> M B) :
  value (bind m f) = value (f (value m)).
Proof.
  unfold bind, value. destruct m as [a t1]. simpl.
  destruct (f a) as [b t2]. reflexivity.
Qed.

Lemma trace_bind {A B} (m : M A) (f : A -> M B) :
  trace (bind m f) = trace m ++ trace (f (value m)).
Proof.
  unfold bind, trace, value. destruct m as [a t1]. simpl.
  destruct (f a) as [b t2]. reflexivity.
Qed.

Lemma bind_ret_value {A B} (m : M A) (f : A -> B) :
  value (bind m (fun a => ret (f a))) = f (value m).
Proof. rewrite value_bind. reflexivity. Qed.

(** ** The association step *)

Lemma scan_solar_existsb (rooftop_box : Box) (solar : list Detection) :
  value (scan_solar rooftop_box solar) = existsb (overlaps rooftop_box) solar.
Proof.
  induction solar as [| s rest IH]; [reflexivity |].
  cbn [scan_solar existsb]. rewrite value_bind. fold (overlaps rooftop_box s).
  destruct (overlaps rooftop_box s); [reflexivity | exact IH].
Qed.

Lemma has_solar_of_existsb (rooftop_box : Box) (solar : list Detection) :
  value (has_solar_of rooftop_box solar) = existsb (overlaps rooftop_box) solar.
Proof.
  unfold has_solar_of. destruct solar as [| s rest]; [reflexivity |].
  cbn [length Nat.ltb Nat.leb]. apply scan_solar_existsb.
Qed.

Lemma existsb_Permutation {A} (p : A -> bool) (l l' : list A) :
  Permutation l l' -> existsb p l = existsb p l'.
Proof.
  intros HP. induction HP as [| x l l' _ IH | x y l | l l' l'' _ IH1 _ IH2];
    cbn [existsb].
  - reflexivity.
  - rewrite IH. reflexivity.
  - destruct (p x), (p y); reflexivity.
  - rewrite IH1. exact IH2.
Qed.

(** One iteration is the association followed by the three writes. *)
Lemma rooftop_iteration_record (solar : list Detection) (g : Ledger)
    (r : Detection) :
  rooftop_iteration solar g r =
    (record_observation (tracker_id r)
       (value (has_solar_of (xyxy r) solar)) g,
     trace (has_solar_of (xyxy r) solar)).
Proof.
  unfold rooftop_iteration, record_observation, bind, value, trace.
  destruct (has_solar_of (xyxy r) solar) as [h t]. cbn [fst snd].
  destruct h; cbn [ret]; rewrite app_nil_r; reflexivity.
Qed.

Lemma update_tracking_record_all (solar rooftops : list Detection) (g : Ledger) :
  value (update_tracking solar rooftops g)
  = record_all (map (observation solar) rooftops) g.
Proof.
  revert g. induction rooftops as [| r rest IH]; intros g; [reflexivity |].
  cbn [update_tracking map]. rewrite value_bind, rooftop_iteration_record.
  unfold value at 2. cbn [fst]. rewrite IH. reflexivity.
Qed.

Lemma update_tracking_trace (solar rooftops : list Detection) (g : Ledger) :
  trace (update_tracking solar rooftops g)
  = flat_map (fun r => trace (has_solar_of (xyxy r) solar)) rooftops.
Proof.
  revert g. induction rooftops as [| r rest IH]; intros g; [reflexivity |].
  cbn [update_tracking flat_map]. rewrite trace_bind, rooftop_iteration_record.
  unfold trace at 1, value at 1. cbn [fst snd]. rewrite IH. reflexivity.
Qed.

(** ** Claims on the association step *)

(** C2.  A rooftop is marked has-solar exactly when some solar detection
    of the frame has [iou > 0.05] with it, and this boolean, the status
    written for the rooftop and the ledger after the frame's loop are the
    same for every reordering of the solar detections. *)
Theorem association_exists_any_order
    (rooftop_box : Box) (solar solar' : list Detection) :
  Permutation solar solar' ->
  (value (has_solar_of rooftop_box solar) = true <->
   exists s, In s solar /\
     scalar_gt (value (calculate_iou rooftop_box (xyxy s))) threshold = true)
  /\ value (has_solar_of rooftop_box solar')
     = value (has_solar_of rooftop_box solar)
  /\ (forall g r,
        rooftop_status (value (rooftop_iteration solar g r)) !! tracker_id r
        = Some (value (has_solar_of (xyxy r) solar)))
  /\ (forall rooftops g,
        value (update_tracking solar' rooftops g)
        = value (update_tracking solar rooftops g)).
Proof.
  intros HP.
  assert (Hperm : forall box, value (has_solar_of box solar')
                              = value (has_solar_of box solar)).
  { intros box. rewrite !has_solar_of_existsb. symmetry.
    apply existsb_Permutation. exact HP. }
  split; [| split; [| split]].
  - rewrite has_solar_of_existsb. apply existsb_exists.
  - apply Hperm.
  - intros g r. rewrite rooftop_iteration_record. unfold value at 1.
    cbn [fst record_observation rooftop_status]. apply lookup_insert_eq.
  - intros rooftops g. rewrite !update_tracking_record_all. f_equal.
    apply map_ext. intros r. unfold observation. rewrite Hperm. reflexivity.
Qed.

Lemma association_exists_any_order_witness :
  Permutation
    [mkDetection (mkBox 100 100 110 110) 1; mkDetection (mkBox 5 5 15 15) 2]
    [mkDetection (mkBox 5 5 15 15) 2; mkDetection (mkBox 100 100 110 110) 1]
  /\ value (has_solar_of (mkBox 0 0 10 10)
       [mkDetection (mkBox 5 5 15 15) 2; mkDetection (mkBox 100 100 110 110) 1])
     = value (has_solar_of (mkBox 0 0 10 10)
       [mkDetection (mkBox 100 100 110 110) 1; mkDetection (mkBox 5 5 15 15) 2]).
Proof.
  assert (HP : Permutation
    [mkDetection (mkBox 100 100 110 110) 1; mkDetection (mkBox 5 5 15 15) 2]
    [mkDetection (mkBox 5 5 15 15) 2; mkDetection (mkBox 100 100 110 110) 1])
    by apply perm_swap.
  split; [exact HP |].
  exact (proj1 (proj2 (association_exists_any_order (mkBox 0 0 10 10) _ _ HP))).
Defined.

(** The evaluation cost does depend on the order: the [break] spares the
    calls that would follow the first qualifying match. *)
Example scan_cost_depends_on_order :
  length (trace (has_solar_of (mkBox 0 0 10 10)
    [mkDetection (mkBox 5 5 15 15) 2; mkDetection (mkBox 100 100 110 110) 1]))
  = 2%nat
  /\ length (trace (has_solar_of (mkBox 0 0 10 10)
    [mkDetection (mkBox 100 100 110 110) 1; mkDetection (mkBox 5 5 15 15) 2]))
  = 3%nat.
Proof. split; reflexivity. Qed.

(** ** The ledger under a sequence of observations *)

Lemma record_all_nil (g : Ledger) : record_all [] g = g.
Proof. reflexivity. Qed.

Lemma record_all_cons (o : Z * bool) (obs : list (Z * bool)) (g : Ledger) :
  record_all (o :: obs) g = record_all obs (record_observation (fst o) (snd o) g).
Proof. reflexivity. Qed.

Lemma record_all_app (obs1 obs2 : list (Z * bool)) (g : Ledger) :
  record_all (obs1 ++ obs2) g = record_all obs2 (record_all obs1 g).
Proof. unfold record_all. apply fold_left_app. Qed.

Lemma record_all_snoc (obs : list (Z * bool)) (o : Z * bool) (g : Ledger) :
  record_all (obs ++ [o]) g = record_observation (fst o) (snd o) (record_all obs g).
Proof. rewrite record_all_app. reflexivity. Qed.

(** A single call never removes an element from either set. *)
Lemma record_observation_grows (k : Z) (h : bool) (g : Ledger) :
  all_rooftops g ⊆ all_rooftops (record_observation k h g)
  /\ rooftops_with_solar g ⊆ rooftops_with_solar (record_observation k h g).
Proof.
  unfold record_observation.
  destruct h; cbn; split; (reflexivity || apply union_subseteq_r).
Qed.

Lemma record_all_grows (obs : list (Z * bool)) (g : Ledger) :
  all_rooftops g ⊆ all_rooftops (record_all obs g)
  /\ rooftops_with_solar g ⊆ rooftops_with_solar (record_all obs g).
Proof.
  revert g. induction obs as [| o obs IH]; intros g; [done |].
  rewrite record_all_cons.
  destruct (IH (record_observation (fst o) (snd o) g)) as [IH1 IH2].
  destruct (record_observation_grows (fst o) (snd o) g) as [H1 H2].
  split; etrans; eassumption.
Qed.

(** A single call keeps the set of solar identities inside the set of
    all identities. *)
Lemma record_observation_subset (k : Z) (h : bool) (g : Ledger) :
  rooftops_with_solar g ⊆ all_rooftops g ->
  rooftops_with_solar (record_observation k h g)
  ⊆ all_rooftops (record_observation k h g).
Proof.
  intros Hg. unfold record_observation. destruct h; cbn.
  - apply union_mono_l, Hg.
  - etrans; [exact Hg | apply union_subseteq_r].
Qed.

Lemma record_all_subset (obs : list (Z * bool)) (g : Ledger) :
  rooftops_with_solar g ⊆ all_rooftops g ->
  rooftops_with_solar (record_all obs g) ⊆ all_rooftops (record_all obs g).
Proof.
  revert g. induction obs as [| o obs IH]; intros g Hg; [exact Hg |].
  rewrite record_all_cons. apply IH, record_observation_subset, Hg.
Qed.

(** A single call keeps every identity whose status is [True] inside the
    set of solar identities. *)
Lemma record_observation_status_solar (k : Z) (h : bool) (g : Ledger) :
  (forall i, rooftop_status g !! i = Some true -> i ∈ rooftops_with_solar g) ->
  forall i, rooftop_status (record_observation k h g) !! i = Some true ->
            i ∈ rooftops_with_solar (record_observation k h g).
Proof.
  intros Hg i. unfold record_observation. cbn.
  destruct (decide (k = i)) as [-> | Hne].
  - rewrite lookup_insert_eq. intros Hh. injection Hh as ->.
    apply elem_of_union_l, elem_of_singleton. reflexivity.
  - rewrite lookup_insert_ne by exact Hne. intros Hi. apply Hg in Hi.
    destruct h; [apply elem_of_union_r |]; exact Hi.
Qed.

Lemma record_all_status_solar (obs : list (Z * bool)) (g : Ledger) :
  (forall i, rooftop_status g !! i = Some true -> i ∈ rooftops_with_solar g) ->
  forall i, rooftop_status (record_all obs g) !! i = Some true ->
            i ∈ rooftops_with_solar (record_all obs g).
Proof.
  revert g. induction obs as [| o obs IH]; intros g Hg; [exact Hg |].
  rewrite record_all_cons. apply IH, record_observation_status_solar, Hg.
Qed.

Lemma current_status_lookup (k : Z) (g : Ledger) :
  current_status k g = default false (rooftop_status g !! k).
Proof.
  unfold current_status, status_getitem.
  destruct (rooftop_status g !! k); reflexivity.
Qed.

(** Every observation leaves a status entry for its identity, and later
    observations keep it. *)
Lemma record_observation_keeps_key (k i : Z) (h : bool) (g : Ledger) :
  is_Some (rooftop_status g !! i) ->
  is_Some (rooftop_status (record_observation k h g) !! i).
Proof.
  intros Hi. unfold record_observation. cbn.
  destruct (decide (k = i)) as [-> | Hne].
  - rewrite lookup_insert_eq. eauto.
  - rewrite lookup_insert_ne by exact Hne. exact Hi.
Qed.

Lemma record_all_keeps_key (obs : list (Z * bool)) (i : Z) (g : Ledger) :
  is_Some (rooftop_status g !! i) ->
  is_Some (rooftop_status (record_all obs g) !! i).
Proof.
  revert g. induction obs as [| o obs IH]; intros g Hg; [exact Hg |].
  rewrite record_all_cons. apply IH, record_observation_keeps_key, Hg.
Qed.

Lemma record_all_has_key (obs : list (Z * bool)) (g : Ledger) :
  Forall (fun o => is_Some (rooftop_status (record_all obs g) !! fst o)) obs.
Proof.
  revert g. induction obs as [| o obs IH]; intros g; constructor.
  - rewrite record_all_cons. apply record_all_keeps_key.
    unfold record_observation. cbn. rewrite lookup_insert_eq. eauto.
  - rewrite record_all_cons. apply IH.
Qed.

(** Observations that are all [False] leave [False] for each of their
    identities. *)
Lemma record_all_false_keeps (obs : list (Z * bool)) (i : Z) (g : Ledger) :
  Forall (fun o => snd o = false) obs ->
  rooftop_status g !! i = Some false ->
  rooftop_status (record_all obs g) !! i = Some false.
Proof.
  intros Hobs. revert g.
  induction Hobs as [| o obs Ho _ IH]; intros g Hg; [exact Hg |].
  rewrite record_all_cons. apply IH. unfold record_observation. cbn.
  destruct (decide (fst o = i)) as [-> | Hne].
  - rewrite lookup_insert_eq, Ho. reflexivity.
  - rewrite lookup_insert_ne by exact Hne. exact Hg.
Qed.

Lemma record_all_false (obs : list (Z * bool)) (g : Ledger) :
  Forall (fun o => snd o = false) obs ->
  Forall (fun o => rooftop_status (record_all obs g) !! fst o = Some false) obs.
Proof.
  intros Hobs. revert g.
  induction Hobs as [| o obs Ho Hobs IH]; intros g; constructor.
  - rewrite record_all_cons. apply record_all_false_keeps; [exact Hobs |].
    unfold record_observation. cbn. rewrite lookup_insert_eq, Ho. reflexivity.
  - rewrite record_all_cons. apply IH.
Qed.

(** ** Labels, [callback] and the video loop *)

Lemma status_getitem_present (k : Z) (d : gmap Z bool) :
  is_Some (d !! k) -> status_getitem k d = (default false (d !! k), d).
Proof.
  intros [b Hb]. unfold status_getitem. rewrite Hb. reflexivity.
Qed.

(** Reading the labels of identities that all have an entry leaves the
    [defaultdict] as it was. *)
Lemma rooftop_labels_present (rooftops : list Detection) (d : gmap Z bool) :
  Forall (fun r => is_Some (d !! tracker_id r)) rooftops ->
  rooftop_labels rooftops d
  = (map (fun r => (tracker_id r, default false (d !! tracker_id r))) rooftops, d).
Proof.
  induction 1 as [| r rest Hr _ IH]; [reflexivity |].
  cbn [rooftop_labels map]. rewrite status_getitem_present by exact Hr.
  rewrite IH. reflexivity.
Qed.

Lemma update_tracking_has_key (solar rooftops : list Detection) (g : Ledger) :
  Forall (fun r => is_Some
            (rooftop_status (value (update_tracking solar rooftops g))
               !! tracker_id r)) rooftops.
Proof.
  rewrite update_tracking_record_all.
  pose proof (record_all_has_key (map (observation solar) rooftops) g) as H.
  rewrite Forall_map in H. exact H.
Qed.

(** The ledger [callback] leaves is the one its loop built. *)
Lemma callback_ledger (frame : Frame) (g : Ledger) :
  snd (value (callback frame g)) = record_all (frame_observations frame) g.
Proof.
  unfold callback. rewrite value_bind.
  pose proof (update_tracking_has_key (solar_detections frame)
                (rooftop_detections frame) g) as Hk.
  unfold frame_observations. rewrite <- update_tracking_record_all.
  set (g1 := value (update_tracking _ _ g)) in *.
  rewrite (rooftop_labels_present _ _ Hk). unfold value, ret. cbn [fst snd].
  destruct g1. reflexivity.
Qed.

Lemma callback_labels (frame : Frame) (g : Ledger) :
  labels (fst (value (callback frame g)))
  = map (fun r => (tracker_id r,
                   current_status (tracker_id r)
                     (record_all (frame_observations frame) g)))
        (rooftop_detections frame).
Proof.
  unfold callback. rewrite value_bind.
  pose proof (update_tracking_has_key (solar_detections frame)
                (rooftop_detections frame) g) as Hk.
  unfold frame_observations. rewrite <- update_tracking_record_all.
  set (g1 := value (update_tracking _ _ g)) in *.
  rewrite (rooftop_labels_present _ _ Hk). unfold value, ret.
  cbn [fst snd labels].
  apply map_ext. intros r. rewrite current_status_lookup. reflexivity.
Qed.

Lemma callback_stats (frame : Frame) (g : Ledger) :
  stats (fst (value (callback frame g)))
  = totals (record_all (frame_observations frame) g).
Proof.
  unfold callback. rewrite value_bind.
  pose proof (update_tracking_has_key (solar_detections frame)
                (rooftop_detections frame) g) as Hk.
  unfold frame_observations. rewrite <- update_tracking_record_all.
  set (g1 := value (update_tracking _ _ g)) in *.
  rewrite (rooftop_labels_present _ _ Hk). unfold value, ret.
  cbn [fst snd stats]. reflexivity.
Qed.

Lemma callback_trace (frame : Frame) (g : Ledger) :
  trace (callback frame g)
  = flat_map (fun r => trace (has_solar_of (xyxy r) (solar_detections frame)))
      (rooftop_detections frame).
Proof.
  unfold callback. rewrite trace_bind.
  destruct (rooftop_labels _ _) as [l d].
  cbn [trace ret snd]. rewrite app_nil_r. apply update_tracking_trace.
Qed.

(** The ledger at the end of the video is the one the observations of
    all frames, in order, build. *)
Lemma process_video_ledger (frames : list Frame) (g : Ledger) :
  snd (value (process_video frames g))
  = record_all (flat_map frame_observations frames) g.
Proof.
  revert g. induction frames as [| frame rest IH]; intros g; [reflexivity |].
  cbn [process_video flat_map]. rewrite !value_bind. cbn [value ret fst snd].
  rewrite record_all_app, <- callback_ledger. apply IH.
Qed.

(** C6.  In a frame without solar-panel detections [callback] never
    calls [calculate_iou] (its trace is empty), every rooftop detection
    gets [has_solar = False], is labelled so, and has [False] as its
    status after the frame. *)
Theorem no_solar_detections (rooftops : list Detection) (g : Ledger) :
  trace (callback (mkFrame rooftops []) g) = []
  /\ Forall (fun r => has_solar_of (xyxy r) [] = (false, [])) rooftops
  /\ labels (fst (value (callback (mkFrame rooftops []) g)))
     = map (fun r => (tracker_id r, false)) rooftops
  /\ Forall (fun r =>
       rooftop_status (snd (value (callback (mkFrame rooftops []) g)))
         !! tracker_id r = Some false) rooftops.
Proof.
  assert (Hst : Forall (fun r =>
       rooftop_status (record_all (frame_observations (mkFrame rooftops [])) g)
         !! tracker_id r = Some false) rooftops).
  { unfold frame_observations. cbn [solar_detections rooftop_detections].
    pose proof (record_all_false (map (observation []) rooftops) g) as H.
    rewrite !Forall_map in H. apply H.
    apply Forall_forall. intros r _. reflexivity. }
  split; [| split; [| split]].
  - rewrite callback_trace. cbn [solar_detections rooftop_detections].
    clear Hst. induction rooftops as [| r rest IH]; [reflexivity | exact IH].
  - apply Forall_forall. intros r _. reflexivity.
  - rewrite callback_labels. cbn [rooftop_detections].
    apply map_ext_Forall. eapply Forall_impl; [exact Hst |].
    intros r Hr. cbn beta in Hr. rewrite current_status_lookup, Hr. reflexivity.
  - rewrite callback_ledger. exact Hst.
Qed.

(** From the empty ledger the two invariants hold. *)
Lemma from_empty_subset (obs : list (Z * bool)) :
  rooftops_with_solar (record_all obs empty_ledger)
  ⊆ all_rooftops (record_all obs empty_ledger).
Proof. apply record_all_subset. done. Qed.

Lemma from_empty_status_solar (obs : list (Z * bool)) (i : Z) :
  rooftop_status (record_all obs empty_ledger) !! i = Some true ->
  i ∈ rooftops_with_solar (record_all obs empty_ledger).
Proof.
  apply record_all_status_solar. intros j Hj.
  cbn in Hj. rewrite lookup_empty in Hj. discriminate.
Qed.

Lemma totals_without_solar_nonneg (g : Ledger) :
  rooftops_with_solar g ⊆ all_rooftops g ->
  (0 <= total_without_solar (totals g))%Z.
Proof.
  intros Hsub. unfold totals. cbn [total_without_solar].
  apply subseteq_size in Hsub. lia.
Qed.

(** ** Claims on the ledger *)

Lemma size_with_member (X : gset Z) (i : Z) :
  i ∈ X -> size X = S (size (X ∖ {[i]})).
Proof.
  intros Hi.
  assert (HX : X = {[i]} ∪ X ∖ {[i]}).
  { apply union_difference_L, singleton_subseteq_l, Hi. }
  rewrite HX at 1. rewrite size_union.
  - rewrite size_singleton. reflexivity.
  - apply disjoint_difference_r1. reflexivity.
Qed.

(** C3.  After an observation of [id] with solar, any further
    observations, and then an observation of [id] without solar, the
    current status of [id] is [False], yet [id] is still a member of
    [rooftops_with_solar] and is one of the identities [total_with_solar]
    counts. *)
Theorem solar_then_no_solar (id : Z) (mid : list (Z * bool)) (g : Ledger) :
  let g' := record_observation id false
              (record_all mid (record_observation id true g)) in
  current_status id g' = false
  /\ rooftop_status g' !! id = Some false
  /\ id ∈ rooftops_with_solar g'
  /\ total_with_solar (totals g')
     = Z.of_nat (S (size (rooftops_with_solar g' ∖ {[id]}))).
Proof.
  intros g'.
  assert (Hst : rooftop_status g' !! id = Some false).
  { unfold g', record_observation. cbn. apply lookup_insert_eq. }
  assert (Hin : id ∈ rooftops_with_solar g').
  { unfold g'. unfold record_observation at 1. cbn.
    apply (proj2 (record_all_grows mid (record_observation id true g))).
    unfold record_observation. cbn.
    apply elem_of_union_l, elem_of_singleton. reflexivity. }
  split; [| split; [| split]].
  - rewrite current_status_lookup, Hst. reflexivity.
  - exact Hst.
  - exact Hin.
  - unfold totals. cbn [total_with_solar]. f_equal.
    apply size_with_member, Hin.
Qed.

(** C4.  After every sequence of observations from the empty ledger,
    [rooftops_with_solar] is a subset of [all_rooftops]; the statistics
    are read off the two sets, the third being the difference of the two
    sizes, and that difference is never negative. *)
Theorem solar_subset_all (obs : list (Z * bool)) :
  let g := record_all obs empty_ledger in
  rooftops_with_solar g ⊆ all_rooftops g
  /\ totals g
     = mkStats (Z.of_nat (size (all_rooftops g)))
               (Z.of_nat (size (rooftops_with_solar g)))
               (Z.of_nat (size (all_rooftops g))
                - Z.of_nat (size (rooftops_with_solar g)))
  /\ (0 <= total_without_solar (totals g))%Z.
Proof.
  intros g.
  pose proof (from_empty_subset obs) as Hsub. fold g in Hsub.
  split; [exact Hsub | split; [reflexivity |]].
  apply totals_without_solar_nonneg, Hsub.
Qed.

(** C8.  No sequence of observations removes an element from
    [all_rooftops] or from [rooftops_with_solar]: both sets, and so both
    sizes, only grow. *)
Theorem sets_never_shrink (obs : list (Z * bool)) (g : Ledger) :
  all_rooftops g ⊆ all_rooftops (record_all obs g)
  /\ rooftops_with_solar g ⊆ rooftops_with_solar (record_all obs g)
  /\ size (all_rooftops g) <= size (all_rooftops (record_all obs g))
  /\ size (rooftops_with_solar g)
     <= size (rooftops_with_solar (record_all obs g)).
Proof.
  destruct (record_all_grows obs g) as [H1 H2].
  repeat split; try assumption; apply subseteq_size; assumption.
Qed.

(** C10.  After every sequence of observations from the empty ledger,
    an identity whose status entry is [True] is a member of
    [rooftops_with_solar], and of [all_rooftops]. *)
Theorem status_true_in_solar (obs : list (Z * bool)) (id : Z) :
  rooftop_status (record_all obs empty_ledger) !! id = Some true ->
  id ∈ rooftops_with_solar (record_all obs empty_ledger)
  /\ id ∈ all_rooftops (record_all obs empty_ledger).
Proof.
  intros H. apply from_empty_status_solar in H.
  split; [exact H |]. apply (from_empty_subset obs), H.
Qed.

Lemma status_true_in_solar_witness :
  rooftop_status (record_all [(7%Z, true)] empty_ledger) !! 7%Z = Some true
  /\ 7%Z ∈ rooftops_with_solar (record_all [(7%Z, true)] empty_ledger)
  /\ 7%Z ∈ all_rooftops (record_all [(7%Z, true)] empty_ledger).
Proof.
  assert (H : rooftop_status (record_all [(7%Z, true)] empty_ledger) !! 7%Z
              = Some true) by (vm_compute; reflexivity).
  split; [exact H |].
  exact (status_true_in_solar [(7%Z, true)] 7%Z H).
Defined.

(** ** The pipeline *)

(** The invariants of the ledger hold after any video. *)
Lemma process_video_invariants (frames : list Frame) :
  let g := snd (value (process_video frames empty_ledger)) in
  rooftops_with_solar g ⊆ all_rooftops g
  /\ (forall i, current_status i g = true -> i ∈ rooftops_with_solar g)
  /\ (0 <= total_without_solar (totals g))%Z.
Proof.
  cbn zeta. rewrite process_video_ledger.
  pose proof (from_empty_subset (flat_map frame_observations frames)) as Hsub.
  split; [exact Hsub | split; [| apply totals_without_solar_nonneg, Hsub]].
  intros i Hi. rewrite current_status_lookup in Hi.
  apply from_empty_status_solar.
  destruct (rooftop_status _ !! i) as [[|] |]; [reflexivity | discriminate ..].
Qed.

(** ** Scenarios *)

Example scenario_iou_value :
  value (calculate_iou (mkBox 0 0 10 10) (mkBox 5 5 15 15)) = Num (25 / 175).
Proof. reflexivity. Qed.

Example scenario_overlap_marks_solar :
  has_solar_of (xyxy (roof 1)) [panel_on_roof]
  = (true, [CallIou (mkBox 0 0 10 10) (mkBox 5 5 15 15); Divide 25 175]).
Proof. reflexivity. Qed.

Example scenario_far_away_no_solar :
  has_solar_of (xyxy (roof 1)) [panel_far_away]
  = (false, [CallIou (mkBox 0 0 10 10) (mkBox 100 100 110 110)]).
Proof. reflexivity. Qed.

Example scenario_identity_7 :
  let g := snd (value (process_video
             [mkFrame [roof 7] [panel_on_roof]; mkFrame [roof 7] []]
             empty_ledger)) in
  current_status 7 g = false
  /\ rooftops_with_solar g = {[7%Z]}
  /\ totals g = mkStats 1 1 0.
Proof. vm_compute. repeat split. Qed.

Example scenario_three_frames :
  totals (snd (value (process_video
    [mkFrame [roof 1] [panel_on_roof];
     mkFrame [roof 1] [panel_far_away];
     mkFrame [roof 1; roof 2] []]
    empty_ledger)))
  = mkStats 2 1 1.
Proof. vm_compute. reflexivity. Qed.

(** * Further properties of [calculate_iou] *)

Local Open Scope Q_scope.

Lemma Qltb_proper (a a' b b' : Q) :
  a == a' -> b == b' -> Qltb a b = Qltb a' b'.
Proof.
  intros Ha Hb. destruct (Qltb a' b') eqn:E.
  - apply Qltb_lt. apply Qltb_lt in E. lra.
  - apply Qltb_ge. apply Qltb_ge in E. lra.
Qed.

Lemma true_divide_proper (n n' d d' : Q) :
  n == n' -> d == d' -> scalar_eq (true_divide n d) (true_divide n' d').
Proof.
  intros Hn Hd. destruct (Qeq_dec d 0) as [E | E].
  - assert (E' : d' == 0) by lra.
    rewrite !true_divide_zero_divisor by assumption.
    rewrite (Qcompare_comp n n' Hn 0 0 (Qeq_refl 0)).
    destruct (n' ?= 0); reflexivity.
  - assert (E' : ~ d' == 0) by lra.
    rewrite !true_divide_number by assumption. simpl.
    rewrite Hn, Hd. reflexivity.
Qed.

Lemma no_intersection_sym (b1 b2 : Box) :
  no_intersection b1 b2 = no_intersection b2 b1.
Proof.
  unfold no_intersection. f_equal; apply Qltb_proper;
    (apply Q.min_comm || apply Q.max_comm).
Qed.

Lemma intersection_area_sym (b1 b2 : Box) :
  intersection_area_of b1 b2 == intersection_area_of b2 b1.
Proof.
  unfold intersection_area_of.
  rewrite (Q.min_comm (x2 b1)), (Q.max_comm (x1 b1)),
    (Q.min_comm (y2 b1)), (Q.max_comm (y1 b1)). reflexivity.
Qed.

Lemma union_area_sym (b1 b2 : Box) :
  union_area_of b1 b2 == union_area_of b2 b1.
Proof.
  unfold union_area_of. rewrite (intersection_area_sym b1 b2). ring.
Qed.

Lemma boxes_meet_iff (b1 b2 : Box) :
  boxes_meet b1 b2 <-> no_intersection b1 b2 = false.
Proof.
  rewrite <- not_true_iff_false, no_intersection_disjoint.
  unfold boxes_meet, disjoint_boxes. split.
  - intros (x & y & H) D. exact (D x y H).
  - intros D. destruct (no_intersection b1 b2) eqn:E.
    + exfalso. apply D. apply no_intersection_disjoint. exact E.
    + apply no_intersection_false in E. destruct E as [Ex Ey].
      apply intervals_meet in Ex, Ey.
      destruct Ex as [x Hx], Ey as [y Hy].
      exists x, y. unfold in_box. tauto.
Qed.

(** X1.  [calculate_iou] is symmetric: swapping the two boxes gives the
    same value, through the same path (as many events in the trace). *)
Theorem calculate_iou_symmetric (b1 b2 : Box) :
  scalar_eq (value (calculate_iou b1 b2)) (value (calculate_iou b2 b1))
  /\ length (trace (calculate_iou b1 b2))
     = length (trace (calculate_iou b2 b1)).
Proof.
  destruct (no_intersection b1 b2) eqn:E.
  - assert (E' := E). rewrite no_intersection_sym in E'.
    rewrite !calculate_iou_early by assumption. split; reflexivity.
  - assert (E' := E). rewrite no_intersection_sym in E'.
    rewrite !calculate_iou_divides by assumption. split; [| reflexivity].
    apply true_divide_proper.
    + apply intersection_area_sym.
    + apply union_area_sym.
Qed.

(** X5.  Every call is one [CallIou] event; it evaluates one division
    when the two boxes have a point in common and none otherwise. *)
Theorem calculate_iou_divisions (b1 b2 : Box) :
  calls (trace (calculate_iou b1 b2)) = 1%nat
  /\ (boxes_meet b1 b2 <-> divisions (trace (calculate_iou b1 b2)) = 1%nat)
  /\ (disjoint_boxes b1 b2 <-> divisions (trace (calculate_iou b1 b2)) = 0%nat).
Proof.
  rewrite boxes_meet_iff, <- no_intersection_disjoint.
  destruct (no_intersection b1 b2) eqn:E.
  - rewrite calculate_iou_early by exact E. cbn.
    repeat split; intros; congruence.
  - rewrite calculate_iou_divides by exact E. cbn.
    repeat split; intros; congruence.
Qed.

(** X7.  The test [iou > 0.05] can succeed only for two boxes that have
    a point in common, both with consistent corner ordering: a solar box
    that shares no point with the rooftop box, and any malformed box, go
    through the early return, and its [0.0] does not pass the test. *)
Theorem overlaps_only_if_boxes_meet (rooftop_box : Box) (s : Detection) :
  overlaps rooftop_box s = true ->
  boxes_meet rooftop_box (xyxy s)
  /\ well_formed rooftop_box /\ well_formed (xyxy s).
Proof.
  unfold overlaps. intros H.
  destruct (no_intersection rooftop_box (xyxy s)) eqn:E.
  - rewrite calculate_iou_early in H by exact E. discriminate H.
  - split; [apply boxes_meet_iff, E | apply division_path_well_formed, E].
Qed.

Lemma overlaps_only_if_boxes_meet_witness :
  overlaps (mkBox 0 0 10 10) panel_on_roof = true
  /\ boxes_meet (mkBox 0 0 10 10) (xyxy panel_on_roof)
  /\ well_formed (mkBox 0 0 10 10) /\ well_formed (xyxy panel_on_roof).
Proof.
  assert (H : overlaps (mkBox 0 0 10 10) panel_on_roof = true) by reflexivity.
  split; [exact H |].
  exact (overlaps_only_if_boxes_meet (mkBox 0 0 10 10) panel_on_roof H).
Defined.

Local Close Scope Q_scope.

(** * Further properties of the association step *)

Lemma calls_app (t1 t2 : list event) : calls (t1 ++ t2) = calls t1 + calls t2.
Proof. unfold calls. rewrite List.filter_app, length_app. reflexivity. Qed.

Lemma divisions_app (t1 t2 : list event) :
  divisions (t1 ++ t2) = divisions t1 + divisions t2.
Proof. unfold divisions. rewrite List.filter_app, length_app. reflexivity. Qed.

Lemma calculate_iou_one_call (b1 b2 : Box) :
  calls (trace (calculate_iou b1 b2)) = 1
  /\ divisions (trace (calculate_iou b1 b2)) <= 1.
Proof.
  destruct (no_intersection b1 b2) eqn:E.
  - rewrite calculate_iou_early by exact E. cbn. lia.
  - rewrite calculate_iou_divides by exact E. cbn. lia.
Qed.

Lemma scan_solar_cons (rooftop_box : Box) (s : Detection)
    (rest : list Detection) :
  scan_solar rooftop_box (s :: rest)
  = if overlaps rooftop_box s
    then (true, trace (calculate_iou rooftop_box (xyxy s)))
    else (value (scan_solar rooftop_box rest),
          trace (calculate_iou rooftop_box (xyxy s))
          ++ trace (scan_solar rooftop_box rest)).
Proof.
  cbn [scan_solar]. unfold overlaps, bind, value, trace.
  destruct (calculate_iou rooftop_box (xyxy s)) as [v t]. cbn [fst snd].
  destruct (scalar_gt v threshold).
  - unfold ret. rewrite app_nil_r. reflexivity.
  - destruct (scan_solar rooftop_box rest). reflexivity.
Qed.

Lemma scan_solar_trace_cons (rooftop_box : Box) (s : Detection)
    (rest : list Detection) :
  trace (scan_solar rooftop_box (s :: rest))
  = trace (calculate_iou rooftop_box (xyxy s))
    ++ (if overlaps rooftop_box s then []
        else trace (scan_solar rooftop_box rest)).
Proof.
  rewrite scan_solar_cons. destruct (overlaps rooftop_box s).
  - unfold trace at 1. cbn [snd]. rewrite app_nil_r. reflexivity.
  - reflexivity.
Qed.

Lemma scan_solar_value_cons (rooftop_box : Box) (s : Detection)
    (rest : list Detection) :
  value (scan_solar rooftop_box (s :: rest))
  = if overlaps rooftop_box s then true
    else value (scan_solar rooftop_box rest).
Proof.
  rewrite scan_solar_cons. destruct (overlaps rooftop_box s); reflexivity.
Qed.

Lemma has_solar_of_scan (rooftop_box : Box) (solar : list Detection) :
  has_solar_of rooftop_box solar = scan_solar rooftop_box solar.
Proof. destruct solar; reflexivity. Qed.

Lemma scan_solar_calls (rooftop_box : Box) (solar : list Detection) :
  calls (trace (scan_solar rooftop_box solar)) <= length solar
  /\ divisions (trace (scan_solar rooftop_box solar))
     <= calls (trace (scan_solar rooftop_box solar)).
Proof.
  induction solar as [| s rest [IH1 IH2]]; [cbn; lia |].
  rewrite scan_solar_trace_cons, calls_app, divisions_app. cbn [length].
  destruct (calculate_iou_one_call rooftop_box (xyxy s)) as [Hc Hd].
  destruct (overlaps rooftop_box s);
    [change (calls []) with 0; change (divisions []) with 0 |]; lia.
Qed.

Lemma scan_solar_no_match (rooftop_box : Box) (solar : list Detection) :
  Forall (fun s => overlaps rooftop_box s = false) solar ->
  value (scan_solar rooftop_box solar) = false
  /\ calls (trace (scan_solar rooftop_box solar)) = length solar.
Proof.
  induction 1 as [| s rest Hs _ [IHv IHc]]; [split; reflexivity |].
  rewrite scan_solar_value_cons, scan_solar_trace_cons, Hs.
  destruct (calculate_iou_one_call rooftop_box (xyxy s)) as [Hc _].
  rewrite calls_app, Hc, IHc. split; [exact IHv | reflexivity].
Qed.

(** X8.  The scan stops at the first solar detection that passes the
    test: the detections after it are never handed to [calculate_iou].
    With [pre] the detections before the first match [s], the result and
    the trace are those of [pre ++ [s]], and the calls number
    [length pre + 1]. *)
Theorem scan_stops_at_first_match (rooftop_box : Box)
    (pre post : list Detection) (s : Detection) :
  Forall (fun d => overlaps rooftop_box d = false) pre ->
  overlaps rooftop_box s = true ->
  has_solar_of rooftop_box (pre ++ s :: post)
  = has_solar_of rooftop_box (pre ++ [s])
  /\ value (has_solar_of rooftop_box (pre ++ s :: post)) = true
  /\ calls (trace (has_solar_of rooftop_box (pre ++ s :: post)))
     = S (length pre).
Proof.
  intros Hpre Hs. rewrite !has_solar_of_scan.
  induction Hpre as [| d pre Hd _ (IH1 & IH2 & IH3)]; cbn [app length].
  - split; [| split].
    + rewrite !scan_solar_cons, Hs. reflexivity.
    + rewrite scan_solar_value_cons, Hs. reflexivity.
    + rewrite scan_solar_trace_cons, Hs, app_nil_r.
      apply calculate_iou_one_call.
  - split; [| split].
    + rewrite !scan_solar_cons, Hd, IH1. reflexivity.
    + rewrite scan_solar_value_cons, Hd. exact IH2.
    + rewrite scan_solar_trace_cons, Hd, calls_app, IH3.
      destruct (calculate_iou_one_call rooftop_box (xyxy d)) as [Hc _].
      rewrite Hc. reflexivity.
Qed.

Lemma scan_stops_at_first_match_witness :
  (Forall (fun d => overlaps (mkBox 0 0 10 10) d = false) [panel_far_away]
   /\ overlaps (mkBox 0 0 10 10) panel_on_roof = true)
  /\ calls (trace (has_solar_of (mkBox 0 0 10 10)
                     ([panel_far_away] ++ panel_on_roof :: [panel_far_away])))
     = 2.
Proof.
  assert (H1 : Forall (fun d => overlaps (mkBox 0 0 10 10) d = false)
                 [panel_far_away]).
  { constructor; [reflexivity | constructor]. }
  assert (H2 : overlaps (mkBox 0 0 10 10) panel_on_roof = true) by reflexivity.
  split; [split; assumption |].
  exact (proj2 (proj2 (scan_stops_at_first_match (mkBox 0 0 10 10)
                         [panel_far_away] [panel_far_away] panel_on_roof H1 H2))).
Defined.

(** X9.  One rooftop costs at most one call of [calculate_iou] per
    solar detection, exactly that many when none passes the test, and
    never more divisions than calls. *)
Theorem has_solar_of_cost (rooftop_box : Box) (solar : list Detection) :
  calls (trace (has_solar_of rooftop_box solar)) <= length solar
  /\ divisions (trace (has_solar_of rooftop_box solar))
     <= calls (trace (has_solar_of rooftop_box solar))
  /\ (value (has_solar_of rooftop_box solar) = false ->
      calls (trace (has_solar_of rooftop_box solar)) = length solar).
Proof.
  rewrite has_solar_of_scan.
  destruct (scan_solar_calls rooftop_box solar) as [Hc Hd].
  split; [exact Hc | split; [exact Hd |]].
  intros Hv. apply scan_solar_no_match.
  rewrite scan_solar_existsb in Hv.
  apply Forall_forall. intros s Hs.
  destruct (overlaps rooftop_box s) eqn:E; [| reflexivity].
  assert (Hex : existsb (overlaps rooftop_box) solar = true).
  { apply existsb_exists. exists s. split; [| exact E].
    apply list_elem_of_In. exact Hs. }
  congruence.
Qed.

Lemma has_solar_of_cost_witness :
  value (has_solar_of (mkBox 0 0 10 10) [panel_far_away; panel_far_away]) = false
  /\ calls (trace (has_solar_of (mkBox 0 0 10 10)
                     [panel_far_away; panel_far_away])) = 2.
Proof.
  assert (H : value (has_solar_of (mkBox 0 0 10 10)
                       [panel_far_away; panel_far_away]) = false)
    by reflexivity.
  split; [exact H |].
  exact (proj2 (proj2 (has_solar_of_cost (mkBox 0 0 10 10)
                         [panel_far_away; panel_far_away])) H).
Defined.

(** X10.  More solar detections never unmark a rooftop: if every
    detection of [solar] is among those of [solar'], a rooftop marked
    against [solar] is marked against [solar']. *)
Theorem has_solar_of_monotone (rooftop_box : Box)
    (solar solar' : list Detection) :
  incl solar solar' ->
  value (has_solar_of rooftop_box solar) = true ->
  value (has_solar_of rooftop_box solar') = true.
Proof.
  intros Hincl. rewrite !has_solar_of_existsb, !existsb_exists.
  intros (s & Hs & Ho). exists s. split; [apply Hincl, Hs | exact Ho].
Qed.

Lemma has_solar_of_monotone_witness :
  (incl [panel_on_roof] [panel_far_away; panel_on_roof]
   /\ value (has_solar_of (mkBox 0 0 10 10) [panel_on_roof]) = true)
  /\ value (has_solar_of (mkBox 0 0 10 10) [panel_far_away; panel_on_roof])
     = true.
Proof.
  assert (H1 : incl [panel_on_roof] [panel_far_away; panel_on_roof]).
  { intros d [<- | []]. right. left. reflexivity. }
  assert (H2 : value (has_solar_of (mkBox 0 0 10 10) [panel_on_roof]) = true)
    by reflexivity.
  split; [split; assumption |].
  exact (has_solar_of_monotone (mkBox 0 0 10 10) _ _ H1 H2).
Defined.

(** * Further properties of the ledger *)

Lemma ledger_eq (g g' : Ledger) :
  rooftop_status g = rooftop_status g' ->
  all_rooftops g = all_rooftops g' ->
  rooftops_with_solar g = rooftops_with_solar g' ->
  g = g'.
Proof. destruct g, g'. cbn. intros -> -> ->. reflexivity. Qed.

(** The three containers after a sequence of observations. *)
Lemma record_all_status (obs : list (Z * bool)) (g : Ledger) (i : Z) :
  rooftop_status (record_all obs g) !! i
  = observe_status i (rooftop_status g !! i) obs.
Proof.
  revert g. induction obs as [| o obs IH]; intros g; [reflexivity |].
  rewrite record_all_cons, IH. unfold observe_status. cbn [fold_left].
  f_equal. unfold record_observation. cbn [rooftop_status].
  destruct (decide (fst o = i)) as [-> | Hne].
  - apply lookup_insert_eq.
  - apply lookup_insert_ne, Hne.
Qed.

Lemma record_all_all (obs : list (Z * bool)) (g : Ledger) :
  all_rooftops (record_all obs g)
  = all_rooftops g ∪ list_to_set (map fst obs).
Proof.
  revert g. induction obs as [| o obs IH]; intros g.
  - rewrite record_all_nil. cbn [map list_to_set].
    rewrite (right_id_L ∅ (∪)). reflexivity.
  - rewrite record_all_cons, IH. cbn [map list_to_set record_observation
      all_rooftops].
    rewrite (comm_L (∪) {[fst o]} (all_rooftops g)), <- (assoc_L (∪)).
    reflexivity.
Qed.

Lemma record_all_solar (obs : list (Z * bool)) (g : Ledger) :
  rooftops_with_solar (record_all obs g)
  = rooftops_with_solar g ∪ list_to_set (map fst (List.filter snd obs)).
Proof.
  revert g. induction obs as [| o obs IH]; intros g.
  - rewrite record_all_nil. cbn [List.filter map list_to_set].
    rewrite (right_id_L ∅ (∪)). reflexivity.
  - rewrite record_all_cons, IH. cbn [List.filter record_observation
      rooftops_with_solar].
    destruct (snd o); [| reflexivity].
    cbn [map list_to_set].
    rewrite (comm_L (∪) {[fst o]} (rooftops_with_solar g)), <- (assoc_L (∪)).
    reflexivity.
Qed.

Lemma observe_status_app (i : Z) (acc : option bool) (obs1 obs2 : list (Z * bool)) :
  observe_status i acc (obs1 ++ obs2)
  = observe_status i (observe_status i acc obs1) obs2.
Proof. unfold observe_status. apply fold_left_app. Qed.

Lemma observe_status_absent (i : Z) (acc : option bool) (obs : list (Z * bool)) :
  ~ In i (map fst obs) -> observe_status i acc obs = acc.
Proof.
  revert acc. induction obs as [| o obs IH]; intros acc Hn; [reflexivity |].
  unfold observe_status. cbn [fold_left].
  destruct (decide (fst o = i)) as [E | _].
  - exfalso. apply Hn. left. exact E.
  - apply IH. intros Hin. apply Hn. right. exact Hin.
Qed.

(** What the observations decide does not depend on the entry before. *)
Lemma observe_status_from (i : Z) (acc : option bool) (obs : list (Z * bool)) :
  observe_status i acc obs
  = match observe_status i None obs with
    | Some h => Some h
    | None => acc
    end.
Proof.
  revert acc. induction obs as [| o obs IH] using rev_ind; intros acc;
    [reflexivity |].
  rewrite !observe_status_app. unfold observe_status at 1 3. cbn [fold_left].
  destruct (decide (fst o = i)); [reflexivity | apply IH].
Qed.

(** X11.  What the counts of a whole video mean: an identity is in
    [all_rooftops] exactly when some frame holds a rooftop detection
    with that identity, and in [rooftops_with_solar] exactly when one
    such detection was found with solar in its frame. *)
Theorem process_video_counts (frames : list Frame) (id : Z) :
  let g := snd (value (process_video frames empty_ledger)) in
  (id ∈ all_rooftops g <->
   exists frame r, In frame frames /\ In r (rooftop_detections frame)
                   /\ tracker_id r = id)
  /\ (id ∈ rooftops_with_solar g <->
      exists frame r, In frame frames /\ In r (rooftop_detections frame)
                      /\ tracker_id r = id
                      /\ value (has_solar_of (xyxy r) (solar_detections frame))
                         = true).
Proof.
  cbn zeta. rewrite process_video_ledger, record_all_all, record_all_solar.
  cbn [empty_ledger all_rooftops rooftops_with_solar].
  rewrite !(left_id_L ∅ (∪)), !elem_of_list_to_set, !list_elem_of_In,
    !in_map_iff.
  split.
  - split.
    + intros (o & Ho & Hin). apply in_flat_map in Hin.
      destruct Hin as (frame & Hf & Hin). unfold frame_observations in Hin.
      apply in_map_iff in Hin. destruct Hin as (r & <- & Hr).
      exists frame, r. auto.
    + intros (frame & r & Hf & Hr & Hid).
      exists (observation (solar_detections frame) r). split; [exact Hid |].
      apply in_flat_map. exists frame. split; [exact Hf |].
      unfold frame_observations. apply in_map. exact Hr.
  - split.
    + intros (o & Ho & Hin). apply List.filter_In in Hin.
      destruct Hin as [Hin Hs]. apply in_flat_map in Hin.
      destruct Hin as (frame & Hf & Hin). unfold frame_observations in Hin.
      apply in_map_iff in Hin. destruct Hin as (r & <- & Hr).
      exists frame, r. auto.
    + intros (frame & r & Hf & Hr & Hid & Hs).
      exists (observation (solar_detections frame) r). split; [exact Hid |].
      apply List.filter_In. split; [| exact Hs].
      apply in_flat_map. exists frame. split; [exact Hf |].
      unfold frame_observations. apply in_map. exact Hr.
Qed.

(** X12.  The status entry of an identity is its last observation: after
    observations [pre], then [(id, h)], then observations [post] of other
    identities, the entry of [id] is [h], whatever came before. *)
Theorem status_is_last_observation (id : Z) (h : bool)
    (pre post : list (Z * bool)) (g : Ledger) :
  ~ In id (map fst post) ->
  rooftop_status (record_all (pre ++ (id, h) :: post) g) !! id = Some h
  /\ current_status id (record_all (pre ++ (id, h) :: post) g) = h.
Proof.
  intros Hpost.
  assert (Hst : rooftop_status (record_all (pre ++ (id, h) :: post) g) !! id
                = Some h).
  { rewrite record_all_status, observe_status_app.
    change ((id, h) :: post) with ([(id, h)] ++ post).
    rewrite observe_status_app, (observe_status_absent id _ post Hpost).
    unfold observe_status at 1. cbn [fold_left fst snd].
    destruct (decide (id = id)); [reflexivity | contradiction]. }
  split; [exact Hst |].
  rewrite current_status_lookup, Hst. reflexivity.
Qed.

Lemma status_is_last_observation_witness :
  ~ In 7%Z (map fst [(8%Z, true)])
  /\ current_status 7
       (record_all ([(7%Z, true)] ++ (7%Z, false) :: [(8%Z, true)]) empty_ledger)
     = false.
Proof.
  assert (H : ~ In 7%Z (map fst [(8%Z, true)])).
  { intros [H | []]. discriminate H. }
  split; [exact H |].
  exact (proj2 (status_is_last_observation 7 false [(7%Z, true)]
                  [(8%Z, true)] empty_ledger H)).
Defined.

Lemma record_all_dom (obs : list (Z * bool)) (g : Ledger) :
  dom (rooftop_status (record_all obs g))
  = dom (rooftop_status g) ∪ list_to_set (map fst obs).
Proof.
  revert g. induction obs as [| o obs IH]; intros g.
  - rewrite record_all_nil. cbn [map list_to_set].
    rewrite (right_id_L ∅ (∪)). reflexivity.
  - rewrite record_all_cons, IH. cbn [map list_to_set record_observation
      rooftop_status].
    rewrite dom_insert_L.
    rewrite (comm_L (∪) {[fst o]} (dom (rooftop_status g))), <- (assoc_L (∪)).
    reflexivity.
Qed.

(** X13.  After any video the keys of [rooftop_status] are exactly the
    identities of [all_rooftops]: building the labels never stores a
    default entry, the dictionary has [total_rooftops] entries, and an
    identity that was never detected reads as [False]. *)
Theorem status_keys_are_all_rooftops (frames : list Frame) :
  let g := snd (value (process_video frames empty_ledger)) in
  dom (rooftop_status g) = all_rooftops g
  /\ Z.of_nat (size (rooftop_status g)) = total_rooftops (totals g)
  /\ (forall id, id ∉ all_rooftops g ->
        rooftop_status g !! id = None /\ current_status id g = false).
Proof.
  cbn zeta. rewrite process_video_ledger.
  set (obs := flat_map frame_observations frames).
  assert (Hdom : dom (rooftop_status (record_all obs empty_ledger))
                 = all_rooftops (record_all obs empty_ledger)).
  { rewrite record_all_dom, record_all_all. cbn [empty_ledger rooftop_status
      all_rooftops]. rewrite dom_empty_L. reflexivity. }
  split; [exact Hdom | split].
  - unfold totals. cbn [total_rooftops]. rewrite <- Hdom, size_dom. reflexivity.
  - intros id Hid. rewrite <- Hdom in Hid. apply not_elem_of_dom in Hid.
    split; [exact Hid |]. rewrite current_status_lookup, Hid. reflexivity.
Qed.

Lemma status_keys_are_all_rooftops_witness :
  (5%Z ∉ all_rooftops (snd (value (process_video
            [mkFrame [roof 7] [panel_on_roof]] empty_ledger))))
  /\ current_status 5 (snd (value (process_video
           [mkFrame [roof 7] [panel_on_roof]] empty_ledger))) = false.
Proof.
  assert (H : 5%Z ∉ all_rooftops (snd (value (process_video
                      [mkFrame [roof 7] [panel_on_roof]] empty_ledger)))).
  { vm_compute. intros H. discriminate H. }
  split; [exact H |].
  exact (proj2 (proj2 (proj2 (status_keys_are_all_rooftops
           [mkFrame [roof 7] [panel_on_roof]])) 5%Z H)).
Defined.

Lemma record_all_twice (obs : list (Z * bool)) (g : Ledger) :
  record_all obs (record_all obs g) = record_all obs g.
Proof.
  apply ledger_eq.
  - apply map_eq. intros i. rewrite !record_all_status.
    rewrite (observe_status_from i (observe_status i _ obs) obs).
    rewrite (observe_status_from i (rooftop_status g !! i) obs).
    destruct (observe_status i None obs); reflexivity.
  - rewrite !record_all_all, <- (assoc_L (∪)), (idemp_L (∪)). reflexivity.
  - rewrite !record_all_solar, <- (assoc_L (∪)), (idemp_L (∪)). reflexivity.
Qed.

(** X14.  Recording is idempotent: the same observation twice in a row,
    or the same frame twice in a row, leaves the ledger and the
    statistics as after the first time. *)
Theorem repeated_frame_idempotent (frame : Frame) (g : Ledger)
    (id : Z) (h : bool) :
  record_observation id h (record_observation id h g)
  = record_observation id h g
  /\ snd (value (callback frame (snd (value (callback frame g)))))
     = snd (value (callback frame g))
  /\ stats (fst (value (callback frame (snd (value (callback frame g))))))
     = stats (fst (value (callback frame g))).
Proof.
  split; [| split].
  - apply (record_all_twice [(id, h)] g).
  - rewrite !callback_ledger. apply record_all_twice.
  - rewrite !callback_stats, callback_ledger, record_all_twice. reflexivity.
Qed.

(** Observations of two different identities commute. *)
Lemma record_observation_comm (i j : Z) (h k : bool) (g : Ledger) :
  i <> j ->
  record_observation i h (record_observation j k g)
  = record_observation j k (record_observation i h g).
Proof.
  intros Hne. apply ledger_eq; cbn [record_observation rooftop_status
      all_rooftops rooftops_with_solar].
  - apply insert_insert_ne. exact Hne.
  - rewrite !(assoc_L (∪)), (comm_L (∪) {[i]} {[j]}). reflexivity.
  - destruct h, k; try reflexivity.
    rewrite !(assoc_L (∪)), (comm_L (∪) {[i]} {[j]}). reflexivity.
Qed.

Lemma record_all_Permutation (obs obs' : list (Z * bool)) :
  Permutation obs obs' -> NoDup (map fst obs) ->
  forall g, record_all obs g = record_all obs' g.
Proof.
  induction 1 as [| o l l' HP IH | o1 o2 l | l l' l'' HP1 IH1 HP2 IH2];
    intros Hnd g.
  - reflexivity.
  - rewrite !record_all_cons. apply IH. cbn [map] in Hnd.
    apply NoDup_cons_1_2 in Hnd. exact Hnd.
  - rewrite !record_all_cons. f_equal. apply record_observation_comm.
    cbn [map] in Hnd. apply NoDup_cons_1_1 in Hnd.
    intros E. apply Hnd. rewrite E. left.
  - rewrite IH1 by exact Hnd. apply IH2.
    rewrite <- (Permutation_map fst HP1). exact Hnd.
Qed.

(** X15.  The order of the rooftop detections within a frame does not
    matter: the two sets are the same for every reordering, and so is the
    whole ledger when the tracker identities of the frame are distinct. *)
Theorem rooftop_order_irrelevant (solar rooftops rooftops' : list Detection)
    (g : Ledger) :
  Permutation rooftops rooftops' ->
  all_rooftops (value (update_tracking solar rooftops' g))
  = all_rooftops (value (update_tracking solar rooftops g))
  /\ rooftops_with_solar (value (update_tracking solar rooftops' g))
     = rooftops_with_solar (value (update_tracking solar rooftops g))
  /\ (NoDup (map tracker_id rooftops) ->
      value (update_tracking solar rooftops' g)
      = value (update_tracking solar rooftops g)).
Proof.
  intros HP. rewrite !update_tracking_record_all.
  assert (HPo : Permutation (map (observation solar) rooftops)
                            (map (observation solar) rooftops'))
    by apply Permutation_map, HP.
  split; [| split].
  - rewrite !record_all_all. f_equal. apply set_eq. intros i.
    rewrite !elem_of_list_to_set. symmetry.
    apply elem_of_Permutation_proper, Permutation_map, HPo.
  - rewrite !record_all_solar. f_equal. apply set_eq. intros i.
    rewrite !elem_of_list_to_set, !list_elem_of_In, !in_map_iff.
    split; intros (o & Ho & Hin); exists o; (split; [exact Ho |]);
      apply List.filter_In in Hin; apply List.filter_In;
      (split; [| tauto]); destruct Hin as [Hin _].
    + eapply Permutation_in; [apply Permutation_sym, HPo | exact Hin].
    + eapply Permutation_in; [exact HPo | exact Hin].
  - intros Hnd. symmetry. apply record_all_Permutation; [exact HPo |].
    rewrite map_map. exact Hnd.
Qed.

Lemma rooftop_order_irrelevant_witness :
  (Permutation [roof 1; roof 2] [roof 2; roof 1]
   /\ NoDup (map tracker_id [roof 1; roof 2]))
  /\ value (update_tracking [panel_on_roof] [roof 2; roof 1] empty_ledger)
     = value (update_tracking [panel_on_roof] [roof 1; roof 2] empty_ledger).
Proof.
  assert (HP : Permutation [roof 1; roof 2] [roof 2; roof 1]) by apply perm_swap.
  assert (Hnd : NoDup (map tracker_id [roof 1; roof 2])).
  { cbn. apply NoDup_cons_2; [| apply NoDup_singleton].
    intros H. apply list_elem_of_singleton in H. discriminate H. }
  split; [split; assumption |].
  exact (proj2 (proj2 (rooftop_order_irrelevant [panel_on_roof] _ _
                         empty_ledger HP)) Hnd).
Defined.

(** * Further properties of [callback] and the video loop *)



Lemma observe_status_NoDup (obs : list (Z * bool)) (o : Z * bool)
    (acc : option bool) :
  NoDup (map fst obs) -> In o obs ->
  observe_status (fst o) acc obs = Some (snd o).
Proof.
  revert acc. induction obs as [| o' obs IH]; intros acc Hnd Hin; [destruct Hin |].
  cbn [map] in Hnd. unfold observe_status. cbn [fold_left].
  destruct Hin as [-> | Hin].
  - destruct (decide (fst o = fst o)); [| contradiction].
    apply observe_status_absent. apply NoDup_cons_1_1 in Hnd.
    intros H. apply Hnd, list_elem_of_In, H.
  - apply IH; [apply NoDup_cons_1_2 in Hnd; exact Hnd | exact Hin].
Qed.

(** X18.  When the tracker identities of a frame are distinct, the label
    of each rooftop shows what the association found for it in this
    frame. *)
Theorem labels_show_association (frame : Frame) (g : Ledger) :
  NoDup (map tracker_id (rooftop_detections frame)) ->
  labels (fst (value (callback frame g)))
  = map (fun r => (tracker_id r,
                   value (has_solar_of (xyxy r) (solar_detections frame))))
      (rooftop_detections frame).
Proof.
  intros Hnd. rewrite callback_labels. apply map_ext_in. intros r Hr.
  f_equal. rewrite current_status_lookup, record_all_status.
  assert (Hnd' : NoDup (map fst (frame_observations frame))).
  { unfold frame_observations. rewrite map_map. exact Hnd. }
  assert (Hin : In (observation (solar_detections frame) r)
                   (frame_observations frame)).
  { unfold frame_observations. apply in_map, Hr. }
  rewrite (observe_status_NoDup _ _ _ Hnd' Hin). reflexivity.
Qed.

Lemma labels_show_association_witness :
  NoDup (map tracker_id
           (rooftop_detections (mkFrame [roof 1; roof 2] [panel_on_roof])))
  /\ labels (fst (value (callback (mkFrame [roof 1; roof 2] [panel_on_roof])
                           empty_ledger)))
     = [(1%Z, true); (2%Z, true)].
Proof.
  assert (Hnd : NoDup (map tracker_id
           (rooftop_detections (mkFrame [roof 1; roof 2] [panel_on_roof])))).
  { cbn. apply NoDup_cons_2; [| apply NoDup_singleton].
    intros H. apply list_elem_of_singleton in H. discriminate H. }
  split; [exact Hnd |].
  exact (labels_show_association (mkFrame [roof 1; roof 2] [panel_on_roof])
           empty_ledger Hnd).
Defined.

Lemma size_add_le (k : Z) (X : gset Z) :
  size X <= size ({[k]} ∪ X) <= S (size X).
Proof.
  split.
  - apply subseteq_size, union_subseteq_r.
  - rewrite size_union_alt, size_singleton.
    assert (size (X ∖ {[k]}) <= size X)
      by apply subseteq_size, subseteq_difference_l, reflexivity.
    lia.
Qed.

Lemma record_all_sizes (obs : list (Z * bool)) (g : Ledger) :
  size (all_rooftops g) <= size (all_rooftops (record_all obs g))
    <= size (all_rooftops g) + length obs
  /\ size (rooftops_with_solar g)
       <= size (rooftops_with_solar (record_all obs g))
       <= size (rooftops_with_solar g) + length (List.filter snd obs).
Proof.
  revert g. induction obs as [| o obs IH]; intros g.
  - rewrite record_all_nil. cbn. lia.
  - rewrite record_all_cons.
    destruct (IH (record_observation (fst o) (snd o) g)) as [IH1 IH2].
    pose proof (size_add_le (fst o) (all_rooftops g)) as Ha.
    pose proof (size_add_le (fst o) (rooftops_with_solar g)) as Hs.
    cbn [record_observation all_rooftops rooftops_with_solar] in IH1, IH2.
    cbn [List.filter length].
    destruct (snd o); cbn [length] in *; lia.
Qed.

Lemma solar_observations_length (solar rooftops : list Detection) :
  length (List.filter snd (map (observation solar) rooftops))
  = length (List.filter (fun r => value (has_solar_of (xyxy r) solar))
              rooftops).
Proof.
  induction rooftops as [| r rest IH]; [reflexivity |].
  cbn [map List.filter observation snd].
  destruct (value (has_solar_of (xyxy r) solar)); cbn [length];
    rewrite IH; reflexivity.
Qed.

(** X19.  Over one frame the displayed totals never go down:
    [total_rooftops] grows by at most the number of rooftop detections
    of the frame and [total_with_solar] by at most the number of them
    found with solar. *)
Theorem callback_totals_grow (frame : Frame) (g : Ledger) :
  let a := fst (value (callback frame g)) in
  (total_rooftops (totals g) <= total_rooftops (stats a)
     <= total_rooftops (totals g)
        + Z.of_nat (length (rooftop_detections frame)))%Z
  /\ (total_with_solar (totals g) <= total_with_solar (stats a)
        <= total_with_solar (totals g)
           + Z.of_nat (length (List.filter
               (fun r => value (has_solar_of (xyxy r) (solar_detections frame)))
               (rooftop_detections frame))))%Z.
Proof.
  cbn zeta. rewrite callback_stats. unfold totals.
  cbn [total_rooftops total_with_solar].
  destruct (record_all_sizes (frame_observations frame) g) as [H1 H2].
  assert (Hl : length (frame_observations frame)
               = length (rooftop_detections frame))
    by apply length_map.
  assert (Hf : length (List.filter snd (frame_observations frame))
               = length (List.filter
                   (fun r => value (has_solar_of (xyxy r) (solar_detections frame)))
                   (rooftop_detections frame))).
  { apply solar_observations_length. }
  rewrite <- Hl, <- Hf. lia.
Qed.

Lemma flat_map_calls (solar rooftops : list Detection) :
  calls (flat_map (fun r => trace (has_solar_of (xyxy r) solar)) rooftops)
    <= length rooftops * length solar
  /\ divisions (flat_map (fun r => trace (has_solar_of (xyxy r) solar)) rooftops)
     <= calls (flat_map (fun r => trace (has_solar_of (xyxy r) solar)) rooftops).
Proof.
  induction rooftops as [| r rest [IH1 IH2]]; [cbn; lia |].
  cbn [flat_map length]. rewrite calls_app, divisions_app, has_solar_of_scan.
  destruct (scan_solar_calls (xyxy r) solar) as [Hc Hd]. lia.
Qed.

(** X20.  A frame costs at most one call of [calculate_iou] per pair of
    a rooftop and a solar detection, never more divisions than calls,
    and what is computed does not depend on the ledger. *)
Theorem callback_cost (frame : Frame) (g : Ledger) :
  calls (trace (callback frame g))
    <= length (rooftop_detections frame) * length (solar_detections frame)
  /\ divisions (trace (callback frame g)) <= calls (trace (callback frame g))
  /\ (forall g', trace (callback frame g') = trace (callback frame g))
  /\ (forall g', labels (fst (value (callback frame g')))
                 = labels (fst (value (callback frame g)))).
Proof.
  rewrite callback_trace.
  destruct (flat_map_calls (solar_detections frame) (rooftop_detections frame))
    as [Hc Hd].
  split; [exact Hc | split; [exact Hd | split]].
  - intros g'. apply callback_trace.
  - intros g'. rewrite !callback_labels. apply map_ext_in. intros r Hr.
    f_equal. rewrite !current_status_lookup, !record_all_status.
    rewrite (observe_status_from _ (rooftop_status g' !! _)).
    rewrite (observe_status_from _ (rooftop_status g !! _)).
    destruct (observe_status (tracker_id r) None (frame_observations frame))
      as [h |] eqn:E; [reflexivity | exfalso].
    assert (Hin : In (tracker_id r) (map fst (frame_observations frame))).
    { unfold frame_observations. rewrite map_map. apply in_map, Hr. }
    revert E Hin. generalize (frame_observations frame). intros obs.
    induction obs as [| o obs IH] using rev_ind; intros E Hin.
    + destruct Hin.
    + rewrite observe_status_app in E. unfold observe_status at 1 in E.
      cbn [fold_left] in E.
      destruct (decide (fst o = tracker_id r)) as [Ho | Ho]; [discriminate E |].
      apply IH; [exact E |].
      rewrite map_app in Hin. apply in_app_or in Hin.
      destruct Hin as [Hin | [Hin | []]]; [exact Hin | contradiction].
Qed.

(** A frame without rooftop detections changes nothing: whatever the
    solar detections, [callback] calls [calculate_iou] not once, leaves
    the ledger as it was and shows the totals of before. *)
Lemma no_rooftop_detections (solar : list Detection) (g : Ledger) :
  callback (mkFrame [] solar) g = (mkAnnotation [] (totals g), g, []).
Proof. destruct g. reflexivity. Qed.

(** * The text of the labels *)

Lemma pretty_N_char_no_space (x : N) : pretty_N_char x <> " "%char.
Proof. unfold pretty_N_char. repeat case_match; discriminate. Qed.

Lemma pretty_N_go_no_space (x : N) (s : string) :
  no_space s -> no_space (pretty_N_go x s).
Proof.
  revert s. induction (N.lt_wf_0 x) as [x _ IH]; intros s Hs.
  destruct (decide (x = 0%N)) as [-> | Hx].
  - rewrite pretty_N_go_0. exact Hs.
  - rewrite pretty_N_go_step by lia. apply IH.
    + apply N.div_lt; lia.
    + split; [apply pretty_N_char_no_space | exact Hs].
Qed.

Lemma pretty_N_no_space (x : N) : no_space (pretty x).
Proof.
  unfold pretty, pretty_N. case_decide.
  - split; [discriminate | exact I].
  - apply pretty_N_go_no_space. exact I.
Qed.

Lemma pretty_Z_no_space (z : Z) : no_space (pretty z).
Proof.
  unfold pretty, pretty_Z. destruct z as [| p | p].
  - split; [discriminate | exact I].
  - apply (pretty_N_no_space (Npos p)).
  - split; [discriminate | apply (pretty_N_no_space (Npos p))].
Qed.

(** Two texts cut at their first space. *)
Lemma split_at_space (p1 p2 r1 r2 : string) :
  no_space p1 -> no_space p2 ->
  (p1 +:+ String " " r1 = p2 +:+ String " " r2)%string ->
  p1 = p2 /\ r1 = r2.
Proof.
  revert p2. induction p1 as [| c p1 IH]; intros [| c' p2] H1 H2 E; cbn in *.
  - injection E as ->. split; reflexivity.
  - injection E as <- _. destruct H2 as [H2 _]. contradiction.
  - injection E as -> _. destruct H1 as [H1 _]. contradiction.
  - injection E as -> E. destruct (IH p2 (proj2 H1) (proj2 H2) E) as [-> ->].
    split; reflexivity.
Qed.

(** X21.  The text of a label tells the identity and the status apart:
    two labels with the same text have the same identity and the same
    status. *)
Theorem label_text_injective (l l' : Z * bool) :
  label_text l = label_text l' -> l = l'.
Proof.
  destruct l as [i b], l' as [i' b']. unfold label_text. cbn [fst snd].
  intros E. injection E as E.
  apply split_at_space in E; [| apply pretty_Z_no_space ..].
  destruct E as [Ei Eb]. apply (inj pretty) in Ei. subst i'.
  destruct b, b'; try reflexivity; discriminate Eb.
Qed.

Lemma label_text_injective_witness :
  label_text (7%Z, true) = "#7 Rooftop (Solar)"%string
  /\ (7%Z, true) = (7%Z, true).
Proof.
  assert (H : label_text (7%Z, true) = label_text (7%Z, true)) by reflexivity.
  split; [reflexivity |].
  exact (label_text_injective (7%Z, true) (7%Z, true) H).
Defined.

Example label_text_no_solar :
  label_text (12%Z, false) = "#12 Rooftop (No Solar)"%string.
Proof. reflexivity. Qed.
